(** * HorizontalCycle: a terminal text effect (effect2.py)

    A shallow embedding of [HorizontalCycleConfig], [HorizontalCycleIterator]
    and [HorizontalCycle], together with the parts of the animation engine
    they call into (colours, gradients, scenes, characters, the terminal).

    The three classes are translated from effect2.py.  The engine pieces they
    import from the [terminaltexteffects] package are not part of the source
    file; each of them is modelled from the written specification and is
    marked as such. *)

From Stdlib Require Import ZArith QArith Floats String Ascii DecimalString Lia.
From stdpp Require Import base list.

Close Scope Q_scope.
Local Open Scope Z_scope.

(** ** Exceptions and outcomes

    Python calls either return a value or raise.  [outcome] keeps both, and
    [let!] sequences calls the way statements follow each other. *)

Inductive exn : Type :=
| ConfigurationError
| SceneConstructionError
| ValueError
| StopIteration.

Inductive outcome (A : Type) : Type :=
| Returns (a : A)
| Raises (e : exn).

Arguments Returns {A} a.
Arguments Raises {A} e.

Definition bind {A B : Type} (m : outcome A) (k : A -> outcome B) : outcome B :=
  match m with
  | Returns a => k a
  | Raises e => Raises e
  end.

Notation "'let!' x ':=' m 'in' k" := (bind m (fun x => k))
  (at level 10, x pattern, m at level 100, k at level 200).

(** ** Colours *)

Record Color : Type := mkColor { red : Z; green : Z; blue : Z }.

Definition hex_digit (a : ascii) : option Z :=
  let n := Z.of_nat (nat_of_ascii a) in
  if (48 <=? n) && (n <=? 57) then Some (n - 48)
  else if (97 <=? n) && (n <=? 102) then Some (n - 87)
  else if (65 <=? n) && (n <=? 70) then Some (n - 55)
  else None.

Fixpoint hex_value (s : string) (acc : Z) : option Z :=
  match s with
  | EmptyString => Some acc
  | String a rest =>
      match hex_digit a with
      | Some d => hex_value rest (16 * acc + d)
      | None => None
      end
  end.

(** Modelled from the spec: the [Color] constructor of
    [terminaltexteffects.utils.graphics].  "An RGB value, immutable,
    constructed from a hex-like string": six hexadecimal digits, two per
    channel. *)
Definition new_Color (rgb : string) : outcome Color :=
  if Nat.eqb (String.length rgb) 6 then
    match hex_value rgb 0 with
    | Some v => Returns (mkColor (v / 65536) ((v / 256) mod 256) (v mod 256))
    | None => Raises ValueError
    end
  else Raises ValueError.

Definition black : Color := mkColor 0 0 0.

(** ** Gradients *)

Record Gradient : Type :=
  mkGradient { stops : list Color; steps : Z; spectrum : list Color }.

(** Integer linear interpolation, [num / den] of the way from [a] to [b]. *)
Definition lerp (a b num den : Z) : Z := a + (b - a) * num / den.

Definition blend (c d : Color) (num den : Z) : Color :=
  mkColor (lerp (red c) (red d) num den)
          (lerp (green c) (green d) num den)
          (lerp (blue c) (blue d) num den).

(** Modelled from the spec: the interpolation inside [Gradient].  The [i]-th
    of [steps] colours spread evenly over the control colours: position [i * (k - 1) / (steps - 1)] along the [k] stops, split into the
    segment it falls in and the distance travelled inside that segment. *)
Definition spectrum_color (stops : list Color) (steps i : Z) : Color :=
  let k := Z.of_nat (length stops) in
  let den := steps - 1 in
  let seg := Z.max 0 (Z.min (i * (k - 1) / den) (k - 2)) in
  let c := nth (Z.to_nat seg) stops black in
  let d := nth (Z.to_nat (seg + 1)) stops c in
  blend c d (i * (k - 1) - seg * den) den.

(** Modelled from the spec: the [Gradient] class of
    [terminaltexteffects.utils.graphics].  "An ordered sequence of Colors plus
    a step count [steps]; produces exactly [steps] interpolated colors between
    consecutive control colors, first/last control colors preserved exactly." *)
Definition new_Gradient (stops : list Color) (steps : Z) : Gradient :=
  mkGradient stops steps
    (map (fun i : nat => spectrum_color stops steps (Z.of_nat i))
         (seq 0 (Z.to_nat steps))).

(** ** Symbols and easing *)

(** Modelled from the spec: a Symbol, "the glyph(s) representing a character's
    original input, plus any intermediate glyphs used during a gradient-driven
    scene": the text and, while a scene plays, its colour. *)
Record Symbol : Type := mkSymbol { glyph : string; colour : option Color }.

Definition decimal (z : Z) : string :=
  NilZero.string_of_uint (N.to_uint (Z.to_N z)).

Definition ESC : string := String (ascii_of_nat 27) EmptyString.

(** Modelled from the spec: the text written for one symbol, which the engine
    leaves to the implementation: the bare glyph, or the glyph between a
    24-bit foreground colour sequence and a reset. *)
Definition Symbol_render (s : Symbol) : string :=
  match colour s with
  | None => glyph s
  | Some c =>
      (ESC ++ "[38;2;" ++ decimal (red c) ++ ";" ++ decimal (green c) ++ ";"
           ++ decimal (blue c) ++ "m" ++ glyph s ++ ESC ++ "[0m")%string
  end.

(** "Pure functions remapping a normalized time value in [0,1] to another
    value in [0,1]".  Time is kept as an exact rational. *)
Definition Easing : Type := Q -> Q.

(** Modelled from the spec: [in_cubic] of [terminaltexteffects.utils.easing],
    the cubic ease-in [t^3]. *)
Definition in_cubic : Easing := fun t => (t * t * t)%Q.

(** ** Animation scenes *)

(** Modelled from the spec: an AnimationScene, "an ordered sequence of
    (Symbol, duration-in-ticks) frames", the easing function the scene is
    bound to, and "a playhead (current tick index)". *)
Record Scene : Type :=
  mkScene { ease : Easing; entries : list (Symbol * Q); playhead : nat }.

(** Modelled from the spec: [Animation.new_scene].  "Creates an empty
    AnimationScene bound to the given Easing function; playhead = 0; not yet
    populated." *)
Definition new_scene (ease : Easing) : Scene := mkScene ease [] 0.

(** Time fraction [i / n]. *)
Definition fraction (i : nat) (n : Z) : Q := (Z.of_nat i # Z.to_pos n)%Q.

(** Modelled from the spec: the "duration slice" of entry [i] of [n].  The
    scene spans [n] ticks, and the entry
    takes the share of them that the easing function puts between the evenly
    spaced fractions [i / n] and [(i + 1) / n]. *)
Definition duration_slice (ease : Easing) (n : Z) (i : nat) : Q :=
  Qred (inject_Z n * (ease (fraction (S i) n) - ease (fraction i n)))%Q.

(** Modelled from the spec: the "one interpolated color" paired with entry
    [i] of [n]: the gradient's colours, sampled evenly from its first to its
    last. *)
Definition gradient_sample (gradient : Gradient) (n : Z) (i : nat) : Color :=
  let len := Z.of_nat (length (spectrum gradient)) in
  nth (Z.to_nat (Z.of_nat i * (len - 1) / (n - 1))) (spectrum gradient) black.

(** Modelled from the spec: [Scene.apply_gradient_to_symbols].  "Populates the
    scene with exactly [step_count] entries, each pairing one interpolated
    color from [gradient] (rendered as a colorized glyph of [base_symbol]) with
    a duration slice computed by applying the easing function to evenly spaced
    time fractions"; "[step_count < 1] requested when populating a scene" is a
    SceneConstructionError. *)
Definition apply_gradient_to_symbols
    (scene : Scene) (gradient : Gradient) (base_symbol : string) (step_count : Z)
  : outcome Scene :=
  if step_count <? 1 then Raises SceneConstructionError
  else Returns
    (mkScene (ease scene)
       (map (fun i : nat =>
               (mkSymbol base_symbol (Some (gradient_sample gradient step_count i)),
                duration_slice (ease scene) step_count i))
            (seq 0 (Z.to_nat step_count)))
       (playhead scene)).

Definition total_duration (entries : list (Symbol * Q)) : Q :=
  fold_right (fun e acc => (snd e + acc)%Q) 0%Q entries.

(** Modelled from the spec: "the playhead reaches the scene's end", the sum
    of the durations of its entries. *)
Definition scene_finished (scene : Scene) : bool :=
  Qle_bool (total_duration (entries scene)) (inject_Z (Z.of_nat (playhead scene))).

(** Modelled from the spec: the entry playing at time [t] (in ticks).  Entries
    follow each other, each for its duration; past the end the last entry
    stays. *)
Fixpoint entry_at (entries : list (Symbol * Q)) (t : Q) : option Symbol :=
  match entries with
  | [] => None
  | (sym, d) :: rest =>
      if Qle_bool d t then
        match entry_at rest (t - d)%Q with
        | Some later => Some later
        | None => Some sym
        end
      else Some sym
  end.

(** ** Characters *)

(** Modelled from the spec: a Character, one glyph of the input text with its
    display state: "current Symbol, [is_visible], [is_active], owned
    AnimationScene (may be none)".  [animation] is the owned scene. *)
Record Character : Type :=
  mkCharacter {
    input_symbol : string;
    is_visible : bool;
    is_active : bool;
    animation : option Scene
  }.

(** Modelled from the spec: [Animation.activate_scene].  "Character's previous
    scene (if any) is discarded; [character.is_active = true]; playhead reset
    to 0." *)
Definition activate_scene (character : Character) (scene : Scene) : Character :=
  mkCharacter (input_symbol character) (is_visible character) true
    (Some (mkScene (ease scene) (entries scene) 0)).

(** Modelled from the spec: the per-tick [advance(character)].  "Moves the
    owned scene's playhead forward one unit; when the playhead reaches the
    scene's end, [character.is_active] becomes false and the scene is
    dropped." *)
Definition advance (character : Character) : Character :=
  match animation character with
  | None => character
  | Some scene =>
      let moved := mkScene (ease scene) (entries scene) (S (playhead scene)) in
      if scene_finished moved then
        mkCharacter (input_symbol character) (is_visible character) false None
      else
        mkCharacter (input_symbol character) (is_visible character)
          (is_active character) (Some moved)
  end.

(** Modelled from the spec: the symbol a character shows now, the playing
    entry of its scene, or its base symbol when it owns none. *)
Definition current_symbol (character : Character) : Symbol :=
  let base := mkSymbol (input_symbol character) None in
  match animation character with
  | None => base
  | Some scene =>
      match entry_at (entries scene) (inject_Z (Z.of_nat (playhead scene))) with
      | Some sym => sym
      | None => base
      end
  end.

(** ** The terminal *)

Record Terminal : Type := mkTerminal { characters : list Character }.

(** Modelled from the spec: [Terminal] construction, "[build(text)]:
    constructs one Character per input position, in order, all initially
    invisible". *)
Definition Terminal_build (text : string) : Terminal :=
  mkTerminal
    (map (fun a => mkCharacter (String a EmptyString) false false None)
         (list_ascii_of_string text)).

(** Modelled from the spec: [Terminal.get_characters], "a snapshot ordered
    sequence of all Characters (stable order = text order)". *)
Definition get_characters (terminal : Terminal) : list Character :=
  characters terminal.

(** Modelled from the spec: [Terminal.set_character_visibility], an
    "idempotent toggle" with "no effect on animation state".  The character is
    named by its position; a position outside the text changes nothing. *)
Definition set_character_visibility
    (terminal : Terminal) (i : nat) (visible : bool) : Terminal :=
  match characters terminal !! i with
  | Some c =>
      mkTerminal
        (<[i := mkCharacter (input_symbol c) visible (is_active c) (animation c)]>
           (characters terminal))
  | None => terminal
  end.

(** Modelled from the spec: [Terminal.render_frame], "concatenating each
    visible Character's current Symbol in order (non-visible characters render
    as blank/space)". *)
Definition render_frame (terminal : Terminal) : string :=
  fold_right
    (fun c rest =>
       ((if is_visible c then Symbol_render (current_symbol c) else " ") ++ rest)%string)
    EmptyString (characters terminal).

(** ** HorizontalCycleConfig *)

Module HorizontalCycleConfig.

(** [speed : float] and [amplitude : int], as the dataclass declares them. *)
Record t : Type := mk { speed : float; amplitude : Z }.

(** The [default=] values of the two [ArgField]s. *)
Definition default : t := mk 0x1.999999999999ap-4%float 5.

(** What the two type parsers of the command line let through:
    [PositiveFloat] for [--speed], [PositiveInt] for [--amplitude]. *)
Definition valid (config : t) : Prop :=
  (0 <? speed config)%float = true /\ 0 < amplitude config.

End HorizontalCycleConfig.

(** ** HorizontalCycle *)

Module HorizontalCycle.

(** The effect: its configuration and the terminal built from the input. *)
Record t : Type :=
  mk { effect_config : HorizontalCycleConfig.t; terminal : Terminal }.

(** Modelled from the spec: [BaseEffect.__init__], which is all that
    [HorizontalCycle.__init__] calls ([super().__init__(input_data)]).  It
    "builds the Terminal/Character model from [input_text]; no other side
    effects", with the configuration class [_config_cls] at its defaults. *)
Definition __init__ (input_data : string) : t :=
  mk HorizontalCycleConfig.default (Terminal_build input_data).

(** [effect.effect_config = config], the way a host changes the options. *)
Definition set_config (effect : t) (config : HorizontalCycleConfig.t) : t :=
  mk config (terminal effect).

End HorizontalCycle.

(** ** HorizontalCycleIterator *)

Module HorizontalCycleIterator.

(** The attributes of the iterator.  [config], [terminal] and
    [active_characters] are those of [BaseEffectIterator]; the other four
    are set by [__init__].  [active_characters] refers to characters of the
    terminal; a reference is the character's position. *)
Record t : Type :=
  mk {
    config : HorizontalCycleConfig.t;
    terminal : Terminal;
    active_characters : list nat;
    amplitude : Z;
    speed : float;
    current_offset : Z;
    direction : Z
  }.

Definition set_terminal (self : t) (terminal : Terminal) : t :=
  mk (config self) terminal (active_characters self) (amplitude self)
     (speed self) (current_offset self) (direction self).

(** [build]:
    for character in self.terminal.get_characters():
        self.terminal.set_character_visibility(character, True) *)
Definition build (self : t) : t :=
  fold_left
    (fun self i =>
       set_terminal self (set_character_visibility (terminal self) i true))
    (seq 0 (length (get_characters (terminal self))))
    self.

(** [__init__].  [super().__init__(effect)] is modelled from the spec: the
    iterator takes the effect's configuration and its terminal ("a
    non-owning reference to the Terminal") and starts with an empty active
    working set.  Then the four assignments and [self.build()]. *)
Definition __init__ (effect : HorizontalCycle.t) : outcome t :=
  let config := HorizontalCycle.effect_config effect in
  let self :=
    mk config (HorizontalCycle.terminal effect) []
       (HorizontalCycleConfig.amplitude config)
       (HorizontalCycleConfig.speed config)
       0
       1 in
  Returns (build self).

(** Modelled from the spec: [BaseEffectIterator.update], "advance all active
    scenes one tick": every character of the active working set is advanced,
    and the characters whose scene ended leave the working set. *)
Definition update (self : t) : t :=
  let chars :=
    fold_left
      (fun chars i =>
         match chars !! i with
         | Some c => <[i := advance c]> chars
         | None => chars
         end)
      (active_characters self)
      (characters (terminal self)) in
  mk (config self) (mkTerminal chars)
     (List.filter
        (fun i => match chars !! i with Some c => is_active c | None => false end)
        (active_characters self))
     (amplitude self) (speed self) (current_offset self) (direction self).

(** Modelled from the spec: the [frame] property of [BaseEffectIterator],
    "return [Terminal.render_frame()]". *)
Definition frame (self : t) : string := render_frame (terminal self).

(** The body of the loop of [__next__] for the character at position [i].
    The loop runs over the positions of the snapshot, so the character is
    there; a position outside the text would change nothing. *)
Definition activate (self : t) (i : nat) : outcome t :=
  match characters (terminal self) !! i with
  | None => Returns self
  | Some character =>
      if negb (is_active character) then
        let gradient_scn := new_scene in_cubic in
        let! c0 := new_Color "ffffff" in
        let! c1 := new_Color "ff0000" in
        let! c2 := new_Color "ffffff" in
        let gradient := new_Gradient [c0; c1; c2] 10 in
        let! gradient_scn :=
          apply_gradient_to_symbols gradient_scn gradient
            (input_symbol character) 5 in
        Returns
          (mk (config self)
              (mkTerminal
                 (<[i := activate_scene character gradient_scn]>
                    (characters (terminal self))))
              (active_characters self ++ [i])
              (amplitude self) (speed self)
              (current_offset self) (direction self))
      else Returns self
  end.

(** [for character in self.terminal.get_characters(): ...] over the
    positions of the snapshot. *)
Fixpoint for_each (positions : list nat) (self : t) : outcome t :=
  match positions with
  | [] => Returns self
  | i :: rest =>
      let! self := activate self i in
      for_each rest self
  end.

(** [__iter__]: [return self]. *)
Definition __iter__ (self : t) : t := self.

(** [__next__]: [self.update()], the loop, [return self.frame]. *)
Definition __next__ (self : t) : outcome (string * t) :=
  let self := update self in
  let! self :=
    for_each (seq 0 (length (get_characters (terminal self)))) self in
  Returns (frame self, self).

(** The first [n] frames a host loop pulls out of the iterator. *)
Fixpoint take_frames (n : nat) (self : t) : outcome (list string * t) :=
  match n with
  | O => Returns ([], self)
  | S n =>
      let! (frame, self) := __next__ self in
      let! (frames, self) := take_frames n self in
      Returns (frame :: frames, self)
  end.

End HorizontalCycleIterator.

(** A whole run: a fresh effect on [input_data], its configuration set to
    [config], one iterator, [n] frames. *)
Definition run (input_data : string) (config : HorizontalCycleConfig.t) (n : nat)
  : outcome (list string) :=
  let effect :=
    HorizontalCycle.set_config (HorizontalCycle.__init__ input_data) config in
  let! self := HorizontalCycleIterator.__init__ effect in
  let! (frames, _) := HorizontalCycleIterator.take_frames n self in
  Returns frames.

(** ** The frame producer as the specification words it

    Section 4.4 of the specification orders a call as: advance the motion
    state, give every inactive character a new scene, advance all active
    scenes, render.  These two definitions follow those words; they are
    compared with [HorizontalCycleIterator.__next__] below. *)

Module Specified.

Import HorizontalCycleIterator.

(** "[offset += direction]; if [|offset| == amplitude], flip [direction]." *)
Definition motion_rule (self : t) : t :=
  let offset := current_offset self + direction self in
  let flipped :=
    if Z.abs offset =? amplitude self then - direction self else direction self in
  mk (config self) (terminal self) (active_characters self) (amplitude self)
     (speed self) offset flipped.

Definition next_in_spec_order (self : t) : outcome (string * t) :=
  let self := motion_rule self in
  let! self :=
    for_each (seq 0 (length (get_characters (terminal self)))) self in
  let self := update self in
  Returns (frame self, self).

End Specified.

(** ** What one call of [__next__] amounts to *)

Definition white : Color := mkColor 255 255 255.
Definition accent : Color := mkColor 255 0 0.

(** The scene [__next__] builds for a character showing [symbol]. *)
Definition shimmer_scene (symbol : string) : outcome Scene :=
  apply_gradient_to_symbols (new_scene in_cubic)
    (new_Gradient [white; accent; white] 10) symbol 5.

(** The same scene, written out. *)
Definition shimmer (symbol : string) : Scene :=
  mkScene in_cubic
    (map (fun i : nat =>
            (mkSymbol symbol
               (Some (gradient_sample (new_Gradient [white; accent; white] 10) 5 i)),
             duration_slice in_cubic 5 i))
         (seq 0 5))
    0.

(** A character after the loop of [__next__] has passed over it. *)
Definition activated (c : Character) : Character :=
  if is_active c then c else activate_scene c (shimmer (input_symbol c)).

Definition inactive_at (chars : list Character) (i : nat) : bool :=
  match chars !! i with
  | Some c => negb (is_active c)
  | None => false
  end.

(** The positions of the characters that are not active, in text order. *)
Definition inactive_positions (chars : list Character) : list nat :=
  List.filter (inactive_at chars) (seq 0 (length chars)).

(** The iterator after one call, as a function of the iterator before. *)
Definition after_next (self : HorizontalCycleIterator.t) : HorizontalCycleIterator.t :=
  let u := HorizontalCycleIterator.update self in
  let chars := characters (HorizontalCycleIterator.terminal u) in
  HorizontalCycleIterator.mk
    (HorizontalCycleIterator.config u)
    (mkTerminal (map activated chars))
    (HorizontalCycleIterator.active_characters u ++ inactive_positions chars)
    (HorizontalCycleIterator.amplitude u)
    (HorizontalCycleIterator.speed u)
    (HorizontalCycleIterator.current_offset u)
    (HorizontalCycleIterator.direction u).

(** The iterator after [n] calls. *)
Fixpoint after_ticks (n : nat) (self : HorizontalCycleIterator.t)
  : HorizontalCycleIterator.t :=
  match n with
  | O => self
  | S n => after_ticks n (after_next self)
  end.

(** The frames of [n] calls. *)
Fixpoint frames_of (n : nat) (self : HorizontalCycleIterator.t) : list string :=
  match n with
  | O => []
  | S n =>
      HorizontalCycleIterator.frame (after_next self)
        :: frames_of n (after_next self)
  end.

(** A character once [build] has passed over it. *)
Definition shown (c : Character) : Character :=
  mkCharacter (input_symbol c) true (is_active c) (animation c).

(** Two iterators that display the same thing: same terminal, same working
    set.  Nothing is said about their configuration or motion state. *)
Definition same_display (s1 s2 : HorizontalCycleIterator.t) : Prop :=
  HorizontalCycleIterator.terminal s1 = HorizontalCycleIterator.terminal s2 /\
  HorizontalCycleIterator.active_characters s1 =
  HorizontalCycleIterator.active_characters s2.

(** The effect a host gets for [input_data] once it has set [config]. *)
Definition effect_for (input_data : string) (config : HorizontalCycleConfig.t)
  : HorizontalCycle.t :=
  HorizontalCycle.set_config (HorizontalCycle.__init__ input_data) config.

(** * Properties *)

(** ** Gradients *)

Lemma blend_start (c d : Color) (den : Z) : blend c d 0 den = c.
Proof.
  destruct c as [r g b]. unfold blend, lerp. cbn [red green blue].
  rewrite !Z.mul_0_r, !Zdiv_0_l, !Z.add_0_r. reflexivity.
Qed.

Lemma blend_end (c d : Color) (den : Z) : den <> 0 -> blend c d den den = d.
Proof.
  intros Hden. destruct c as [r g b], d as [r' g' b'].
  unfold blend, lerp. cbn [red green blue].
  rewrite !Z.div_mul by assumption. f_equal; lia.
Qed.

Lemma spectrum_length (stops : list Color) (steps : Z) :
  length (spectrum (new_Gradient stops steps)) = Z.to_nat steps.
Proof. cbn [new_Gradient spectrum]. rewrite length_map, length_seq. reflexivity. Qed.

Lemma spectrum_color_first (c : Color) (rest : list Color) (steps : Z) :
  spectrum_color (c :: rest) steps 0 = c.
Proof.
  unfold spectrum_color.
  set (k := Z.of_nat (length (c :: rest))).
  assert (Hseg : Z.max 0 (Z.min (0 * (k - 1) / (steps - 1)) (k - 2)) = 0).
  { rewrite Z.mul_0_l, Zdiv_0_l. lia. }
  rewrite Hseg. cbn [Z.to_nat nth]. rewrite Z.mul_0_l.
  apply blend_start.
Qed.

Lemma spectrum_color_last (stops : list Color) (steps : Z) :
  2 <= steps -> stops <> [] ->
  Some (spectrum_color stops steps (steps - 1)) = last stops.
Proof.
  intros Hsteps Hstops. unfold spectrum_color.
  set (k := Z.of_nat (length stops)).
  set (den := steps - 1).
  assert (Hk : 1 <= k).
  { subst k. destruct stops; [congruence | cbn [length]; lia]. }
  assert (Hdiv : den * (k - 1) / den = k - 1).
  { rewrite Z.mul_comm. apply Z.div_mul. lia. }
  rewrite Hdiv.
  destruct (Z.eq_dec k 1) as [Hone | Hmore].
  - replace (Z.max 0 (Z.min (k - 1) (k - 2))) with 0 by lia.
    rewrite Hone. replace (den * (1 - 1) - 0 * den) with 0 by lia.
    rewrite blend_start.
    destruct stops as [|c [|d rest]]; cbn [length] in *; subst k; try lia.
    reflexivity.
  - replace (Z.max 0 (Z.min (k - 1) (k - 2))) with (k - 2) by lia.
    replace (den * (k - 1) - (k - 2) * den) with den by lia.
    rewrite blend_end by lia.
    replace (Z.to_nat (k - 2 + 1)) with (Nat.pred (length stops)) by lia.
    rewrite last_lookup.
    destruct (stops !! Nat.pred (length stops)) as [x|] eqn:Hx.
    + f_equal. apply nth_lookup_Some with (d := nth (Z.to_nat (k - 2)) stops black) in Hx.
      exact Hx.
    + apply lookup_ge_None in Hx. lia.
Qed.

Example spectrum_white_accent_white :
  map green (spectrum (new_Gradient [white; accent; white] 10))
    = [255; 198; 141; 85; 28; 28; 85; 141; 198; 255].
Proof. reflexivity. Qed.

Example shimmer_durations :
  map snd (entries (shimmer "A")) = [1 # 25; 7 # 25; 19 # 25; 37 # 25; 61 # 25]%Q
  /\ Qeq_bool (total_duration (entries (shimmer "A"))) 5 = true.
Proof. split; reflexivity. Qed.

Example shimmer_colours :
  map (fun e => option_map green (colour (fst e))) (entries (shimmer "A"))
    = [Some 255; Some 141; Some 28; Some 85; Some 255].
Proof. reflexivity. Qed.

(** C6.  For every choice of control colours [c0], [c1], [c2], the gradient
    [Gradient(c0, c1, c2, steps=10)] yields exactly 10 colours; the first one
    yielded is [c0] and the last one is [c2]. *)
Theorem gradient_three_stops_ten_steps (c0 c1 c2 : Color) :
  let yielded := spectrum (new_Gradient [c0; c1; c2] 10) in
  length yielded = 10%nat /\ head yielded = Some c0 /\ last yielded = Some c2.
Proof.
  cbv zeta. split; [apply spectrum_length|]. split.
  - change (Some (spectrum_color [c0; c1; c2] 10 0) = Some c0).
    f_equal. apply spectrum_color_first.
  - change (last (spectrum (new_Gradient [c0; c1; c2] 10)))
      with (Some (spectrum_color [c0; c1; c2] 10 (10 - 1))).
    rewrite spectrum_color_last; [reflexivity | lia | discriminate].
Qed.

(** ** The loop of [__next__] *)

Lemma new_Color_white : new_Color "ffffff" = Returns white.
Proof. reflexivity. Qed.

Lemma new_Color_accent : new_Color "ff0000" = Returns accent.
Proof. reflexivity. Qed.

Lemma shimmer_scene_returns (symbol : string) :
  shimmer_scene symbol = Returns (shimmer symbol).
Proof. reflexivity. Qed.

Lemma activate_scene_shimmer (c : Character) :
  activate_scene c (shimmer (input_symbol c)) =
  mkCharacter (input_symbol c) (is_visible c) true (Some (shimmer (input_symbol c))).
Proof. reflexivity. Qed.

Lemma activate_at (self : HorizontalCycleIterator.t) (i : nat) (c : Character) :
  characters (HorizontalCycleIterator.terminal self) !! i = Some c ->
  HorizontalCycleIterator.activate self i =
  Returns
    (HorizontalCycleIterator.mk
       (HorizontalCycleIterator.config self)
       (mkTerminal
          (<[i := activated c]> (characters (HorizontalCycleIterator.terminal self))))
       (HorizontalCycleIterator.active_characters self
          ++ (if is_active c then [] else [i]))
       (HorizontalCycleIterator.amplitude self)
       (HorizontalCycleIterator.speed self)
       (HorizontalCycleIterator.current_offset self)
       (HorizontalCycleIterator.direction self)).
Proof.
  intros Hc. unfold HorizontalCycleIterator.activate, activated. rewrite Hc.
  destruct (is_active c) eqn:Hactive; cbn [negb].
  - rewrite list_insert_id by exact Hc. rewrite app_nil_r.
    destruct self as [cfg [chars] act amp spd off dir]. reflexivity.
  - rewrite new_Color_white, new_Color_accent. cbn [bind].
    fold (shimmer_scene (input_symbol c)).
    rewrite shimmer_scene_returns. reflexivity.
Qed.

Lemma for_each_app (l1 l2 : list nat) (self : HorizontalCycleIterator.t) :
  HorizontalCycleIterator.for_each (l1 ++ l2) self =
  let! self := HorizontalCycleIterator.for_each l1 self in
  HorizontalCycleIterator.for_each l2 self.
Proof.
  revert self. induction l1 as [|i l1 IH]; intros self; [reflexivity|].
  cbn [app HorizontalCycleIterator.for_each].
  destruct (HorizontalCycleIterator.activate self i) as [s|e]; cbn [bind];
    [apply IH | reflexivity].
Qed.

(** The loop after its first [n] rounds: the first [n] characters have been
    passed over, the others are as they were. *)
Lemma for_each_prefix (self : HorizontalCycleIterator.t) (n : nat) :
  let chars := characters (HorizontalCycleIterator.terminal self) in
  (n <= length chars)%nat ->
  HorizontalCycleIterator.for_each (seq 0 n) self =
  Returns
    (HorizontalCycleIterator.mk
       (HorizontalCycleIterator.config self)
       (mkTerminal (map activated (take n chars) ++ drop n chars))
       (HorizontalCycleIterator.active_characters self
          ++ List.filter (inactive_at chars) (seq 0 n))
       (HorizontalCycleIterator.amplitude self)
       (HorizontalCycleIterator.speed self)
       (HorizontalCycleIterator.current_offset self)
       (HorizontalCycleIterator.direction self)).
Proof.
  cbv zeta. induction n as [|n IH]; intros Hn.
  - cbn. rewrite app_nil_r.
    destruct self as [cfg [chars] act amp spd off dir]. cbn. rewrite drop_0. reflexivity.
  - rewrite seq_S, for_each_app, IH by lia. cbn [bind plus].
    set (chars := characters (HorizontalCycleIterator.terminal self)) in *.
    destruct (chars !! n) as [c|] eqn:Hc;
      [| apply lookup_ge_None in Hc; lia].
    assert (Hlen : length (map activated (take n chars)) = n).
    { rewrite length_map, length_take. lia. }
    cbn [HorizontalCycleIterator.for_each].
    erewrite activate_at; cycle 1.
    { cbn [HorizontalCycleIterator.terminal characters].
      rewrite lookup_app_r by lia. rewrite Hlen, Nat.sub_diag.
      rewrite lookup_drop, Nat.add_0_r. exact Hc. }
    cbn [bind HorizontalCycleIterator.for_each HorizontalCycleIterator.config
         HorizontalCycleIterator.terminal HorizontalCycleIterator.active_characters
         HorizontalCycleIterator.amplitude HorizontalCycleIterator.speed
         HorizontalCycleIterator.current_offset HorizontalCycleIterator.direction
         characters].
    f_equal. f_equal.
    + f_equal.
      rewrite insert_app_r_alt by lia. rewrite Hlen, Nat.sub_diag.
      rewrite (drop_S _ _ _ Hc). cbn [list_insert insert].
      rewrite (take_S_r _ _ _ Hc), map_app, <- app_assoc. reflexivity.
    + rewrite <- app_assoc. f_equal.
      rewrite List.filter_app. f_equal.
      cbn [List.filter].
      replace (inactive_at chars n) with (negb (is_active c))
        by (unfold inactive_at; rewrite Hc; reflexivity).
      destruct (is_active c); reflexivity.
Qed.

Lemma after_next_length (self : HorizontalCycleIterator.t) :
  length (characters (HorizontalCycleIterator.terminal (after_next self))) =
  length (characters (HorizontalCycleIterator.terminal (HorizontalCycleIterator.update self))).
Proof. cbn. apply length_map. Qed.

(** One call of [__next__] returns, and returns the frame of [after_next]. *)
Lemma next_returns (self : HorizontalCycleIterator.t) :
  HorizontalCycleIterator.__next__ self =
  Returns (HorizontalCycleIterator.frame (after_next self), after_next self).
Proof.
  unfold HorizontalCycleIterator.__next__, get_characters.
  rewrite for_each_prefix by lia. cbn [bind].
  rewrite firstn_all, drop_all, app_nil_r. reflexivity.
Qed.

Lemma take_frames_returns (n : nat) (self : HorizontalCycleIterator.t) :
  HorizontalCycleIterator.take_frames n self =
  Returns (frames_of n self, after_ticks n self).
Proof.
  revert self. induction n as [|n IH]; intros self; [reflexivity|].
  cbn [HorizontalCycleIterator.take_frames frames_of after_ticks].
  rewrite next_returns. cbn [bind]. rewrite IH. reflexivity.
Qed.

(** ** [build] and [__init__] *)

Lemma build_prefix (self : HorizontalCycleIterator.t) (n : nat) :
  let chars := characters (HorizontalCycleIterator.terminal self) in
  (n <= length chars)%nat ->
  fold_left
    (fun self i =>
       HorizontalCycleIterator.set_terminal self
         (set_character_visibility (HorizontalCycleIterator.terminal self) i true))
    (seq 0 n) self =
  HorizontalCycleIterator.set_terminal self
    (mkTerminal (map shown (take n chars) ++ drop n chars)).
Proof.
  cbv zeta. induction n as [|n IH]; intros Hn.
  - destruct self as [cfg [chars] act amp spd off dir]. cbn. rewrite drop_0. reflexivity.
  - rewrite seq_S, fold_left_app, IH by lia. cbn [plus fold_left].
    set (chars := characters (HorizontalCycleIterator.terminal self)) in *.
    destruct (chars !! n) as [c|] eqn:Hc;
      [| apply lookup_ge_None in Hc; lia].
    assert (Hlen : length (map shown (take n chars)) = n).
    { rewrite length_map, length_take. lia. }
    unfold HorizontalCycleIterator.set_terminal at 1 2.
    cbn [HorizontalCycleIterator.terminal HorizontalCycleIterator.config
         HorizontalCycleIterator.active_characters HorizontalCycleIterator.amplitude
         HorizontalCycleIterator.speed HorizontalCycleIterator.current_offset
         HorizontalCycleIterator.direction].
    unfold HorizontalCycleIterator.set_terminal. f_equal.
    unfold set_character_visibility.
    cbn [characters HorizontalCycleIterator.terminal].
    rewrite lookup_app_r by lia. rewrite Hlen, Nat.sub_diag.
    rewrite lookup_drop, Nat.add_0_r, Hc. f_equal.
    rewrite insert_app_r_alt by lia. rewrite Hlen, Nat.sub_diag.
    rewrite (drop_S _ _ _ Hc). cbn [list_insert insert].
    rewrite (take_S_r _ _ _ Hc), map_app, <- app_assoc. reflexivity.
Qed.

Lemma build_shows_all (self : HorizontalCycleIterator.t) :
  HorizontalCycleIterator.build self =
  HorizontalCycleIterator.set_terminal self
    (mkTerminal (map shown (characters (HorizontalCycleIterator.terminal self)))).
Proof.
  unfold HorizontalCycleIterator.build, get_characters.
  rewrite build_prefix by lia.
  rewrite firstn_all, drop_all, app_nil_r. reflexivity.
Qed.

Lemma init_returns (effect : HorizontalCycle.t) :
  HorizontalCycleIterator.__init__ effect =
  Returns
    (HorizontalCycleIterator.mk
       (HorizontalCycle.effect_config effect)
       (mkTerminal (map shown (characters (HorizontalCycle.terminal effect))))
       []
       (HorizontalCycleConfig.amplitude (HorizontalCycle.effect_config effect))
       (HorizontalCycleConfig.speed (HorizontalCycle.effect_config effect))
       0 1).
Proof.
  unfold HorizontalCycleIterator.__init__. rewrite build_shows_all. reflexivity.
Qed.

Lemma Terminal_build_length (text : string) :
  length (characters (Terminal_build text)) = String.length text.
Proof.
  cbn [Terminal_build characters]. rewrite length_map.
  induction text as [|a text IH]; cbn; [reflexivity | f_equal; exact IH].
Qed.

(** ** What [update] and the loop leave alone *)

Lemma map_insert_same {A B : Type} (f : A -> B) (l : list A) (i : nat) (x c : A) :
  l !! i = Some c -> f x = f c -> map f (<[i := x]> l) = map f l.
Proof.
  revert i. induction l as [|y l IH]; intros [|i] Hc Hf; cbn in *; try congruence.
  f_equal. apply IH; assumption.
Qed.

Lemma lookup_map {A B : Type} (f : A -> B) (l : list A) (i : nat) (c : A) :
  l !! i = Some c -> map f l !! i = Some (f c).
Proof.
  revert i. induction l as [|y l IH]; intros [|i] Hc; cbn in *; try congruence.
  apply IH. exact Hc.
Qed.

Lemma advance_keeps_symbol (c : Character) :
  input_symbol (advance c) = input_symbol c /\ is_visible (advance c) = is_visible c.
Proof.
  unfold advance. destruct (animation c) as [scene|]; [|split; reflexivity].
  destruct (scene_finished _); split; reflexivity.
Qed.

Lemma advance_all_keeps {B : Type} (f : Character -> B) (active : list nat)
    (chars : list Character) :
  (forall c, f (advance c) = f c) ->
  map f
    (fold_left
       (fun chars i =>
          match chars !! i with
          | Some c => <[i := advance c]> chars
          | None => chars
          end)
       active chars) =
  map f chars.
Proof.
  intros Hf. revert chars. induction active as [|i active IH]; intros chars; [reflexivity|].
  cbn [fold_left]. rewrite IH.
  destruct (chars !! i) as [c|] eqn:Hc; [|reflexivity].
  apply map_insert_same with (c := c); [exact Hc | apply Hf].
Qed.

Lemma lookup_map_option {A B : Type} (f : A -> B) (l : list A) (i : nat) :
  map f l !! i = option_map f (l !! i).
Proof.
  revert i. induction l as [|y l IH]; intros [|i]; cbn; try reflexivity. apply IH.
Qed.

(** Advancing the characters of a working set without repetitions advances
    each of them once and leaves the others alone. *)
Lemma advance_all_lookup (active : list nat) :
  NoDup active ->
  forall (chars : list Character) (j : nat),
    let advanced :=
      fold_left
        (fun chars i =>
           match chars !! i with
           | Some c => <[i := advance c]> chars
           | None => chars
           end)
        active chars in
    (In j active -> advanced !! j = option_map advance (chars !! j)) /\
    (~ In j active -> advanced !! j = chars !! j).
Proof.
  induction 1 as [|i active Hfresh Hnodup IH]; intros chars j; cbv zeta.
  - split; [intros [] | reflexivity].
  - cbn [fold_left].
    set (stepped := match chars !! i with
                    | Some c => <[i := advance c]> chars
                    | None => chars
                    end).
    assert (Hsame : stepped !! i = option_map advance (chars !! i)).
    { subst stepped. destruct (chars !! i) as [c|] eqn:Hc; [|rewrite Hc; reflexivity].
      apply list_lookup_insert_eq. apply lookup_lt_Some in Hc. exact Hc. }
    assert (Hother : j <> i -> stepped !! j = chars !! j).
    { intros Hne. subst stepped. destruct (chars !! i) as [c|]; [|reflexivity].
      apply list_lookup_insert_ne. congruence. }
    destruct (IH stepped j) as [Hin Hout].
    rewrite list_elem_of_In in Hfresh.
    split.
    + intros [<- | Hj].
      * rewrite Hout by exact Hfresh. exact Hsame.
      * rewrite Hin by exact Hj. rewrite Hother; [reflexivity|].
        intros ->. contradiction.
    + intros Hnot. cbn [In] in Hnot.
      rewrite Hout by tauto. apply Hother. intros ->. tauto.
Qed.

Lemma update_length (self : HorizontalCycleIterator.t) :
  length (characters (HorizontalCycleIterator.terminal (HorizontalCycleIterator.update self)))
    = length (characters (HorizontalCycleIterator.terminal self)).
Proof.
  cbn [HorizontalCycleIterator.update HorizontalCycleIterator.terminal characters].
  rewrite <- (length_map (fun _ => tt)), <- (length_map (fun _ : Character => tt) (characters _)).
  f_equal. apply advance_all_keeps. reflexivity.
Qed.

(** Characters outside the working set are not touched. *)
Lemma advance_all_untouched (active : list nat) (chars : list Character) (j : nat) :
  ~ In j active ->
  fold_left
    (fun chars i =>
       match chars !! i with
       | Some c => <[i := advance c]> chars
       | None => chars
       end)
    active chars !! j = chars !! j.
Proof.
  revert chars. induction active as [|i active IH]; intros chars Hnot; [reflexivity|].
  cbn [fold_left]. cbn [In] in Hnot. rewrite IH by tauto.
  destruct (chars !! i) as [c|]; [|reflexivity].
  apply list_lookup_insert_ne. tauto.
Qed.

Lemma activated_keeps_symbol (c : Character) :
  input_symbol (activated c) = input_symbol c /\ is_visible (activated c) = is_visible c.
Proof. unfold activated. destruct (is_active c); split; reflexivity. Qed.

Lemma after_next_keeps_text (self : HorizontalCycleIterator.t) :
  let before := characters (HorizontalCycleIterator.terminal self) in
  let after := characters (HorizontalCycleIterator.terminal (after_next self)) in
  map input_symbol after = map input_symbol before /\
  map is_visible after = map is_visible before.
Proof.
  cbv zeta. cbn [after_next HorizontalCycleIterator.terminal characters
                 HorizontalCycleIterator.update].
  rewrite !map_map. split.
  - rewrite (map_ext _ input_symbol) by (intros c; apply activated_keeps_symbol).
    apply advance_all_keeps. intros c. apply advance_keeps_symbol.
  - rewrite (map_ext _ is_visible) by (intros c; apply activated_keeps_symbol).
    apply advance_all_keeps. intros c. apply advance_keeps_symbol.
Qed.

Lemma after_ticks_motion (n : nat) (self : HorizontalCycleIterator.t) :
  HorizontalCycleIterator.current_offset (after_ticks n self) =
    HorizontalCycleIterator.current_offset self /\
  HorizontalCycleIterator.direction (after_ticks n self) =
    HorizontalCycleIterator.direction self /\
  HorizontalCycleIterator.amplitude (after_ticks n self) =
    HorizontalCycleIterator.amplitude self /\
  HorizontalCycleIterator.speed (after_ticks n self) =
    HorizontalCycleIterator.speed self.
Proof.
  revert self. induction n as [|n IH]; intros self; [repeat split|].
  cbn [after_ticks]. destruct (IH (after_next self)) as (-> & -> & -> & ->).
  repeat split.
Qed.

Lemma frames_of_length (n : nat) (self : HorizontalCycleIterator.t) :
  length (frames_of n self) = n.
Proof.
  revert self. induction n as [|n IH]; intros self; [reflexivity|].
  cbn [frames_of length]. f_equal. apply IH.
Qed.

Lemma frames_of_prefix (n m : nat) (self : HorizontalCycleIterator.t) :
  take n (frames_of (n + m) self) = frames_of n self.
Proof.
  revert self. induction n as [|n IH]; intros self; [reflexivity|].
  cbn [plus frames_of take]. f_equal. apply IH.
Qed.

(** ** Configuration and display *)

Lemma after_next_same_display (s1 s2 : HorizontalCycleIterator.t) :
  same_display s1 s2 -> same_display (after_next s1) (after_next s2).
Proof.
  destruct s1 as [cfg1 t1 act1 amp1 spd1 off1 dir1].
  destruct s2 as [cfg2 t2 act2 amp2 spd2 off2 dir2].
  unfold same_display. cbn [HorizontalCycleIterator.terminal
                            HorizontalCycleIterator.active_characters].
  intros [-> ->]. split; reflexivity.
Qed.

Lemma frames_of_same_display (n : nat) (s1 s2 : HorizontalCycleIterator.t) :
  same_display s1 s2 -> frames_of n s1 = frames_of n s2.
Proof.
  revert s1 s2. induction n as [|n IH]; intros s1 s2 Hsame; [reflexivity|].
  cbn [frames_of]. pose proof (after_next_same_display _ _ Hsame) as Hnext.
  f_equal; [| apply IH; exact Hnext].
  unfold HorizontalCycleIterator.frame. destruct Hnext as [-> _]. reflexivity.
Qed.

Lemma run_returns (text : string) (config : HorizontalCycleConfig.t) (n : nat) :
  run text config n =
  Returns
    (frames_of n
       (HorizontalCycleIterator.mk config
          (mkTerminal (map shown (characters (Terminal_build text)))) []
          (HorizontalCycleConfig.amplitude config)
          (HorizontalCycleConfig.speed config) 0 1)).
Proof.
  unfold run. rewrite init_returns. cbn [bind].
  rewrite take_frames_returns. reflexivity.
Qed.

Lemma run_ignores_config (text : string) (config1 config2 : HorizontalCycleConfig.t)
    (n : nat) :
  run text config1 n = run text config2 n.
Proof.
  rewrite !run_returns. f_equal. apply frames_of_same_display.
  split; reflexivity.
Qed.

(** * The statements of the specification *)

(** C1.  The specification: on every tick [current_offset] changes by [direction], and
    [direction] is negated exactly when [|current_offset|] equals [amplitude].
    The code does not do this.  For the text "AB" with the default
    configuration, the iterator starts at offset 0 with direction 1; the first
    call of [__next__] returns a frame and leaves the offset at 0, where the
    rule of the specification ([Specified.motion_rule]) gives 1. *)
Theorem first_tick_leaves_offset_at_zero :
  exists self frame self',
    HorizontalCycleIterator.__init__ (effect_for "AB" HorizontalCycleConfig.default)
      = Returns self /\
    HorizontalCycleIterator.__next__ self = Returns (frame, self') /\
    HorizontalCycleIterator.current_offset self = 0 /\
    HorizontalCycleIterator.direction self = 1 /\
    HorizontalCycleIterator.current_offset self' = 0 /\
    HorizontalCycleIterator.current_offset self' <>
      HorizontalCycleIterator.current_offset self
        + HorizontalCycleIterator.direction self /\
    HorizontalCycleIterator.current_offset (Specified.motion_rule self) = 1.
Proof.
  eexists _, _, _. split; [apply init_returns|].
  split; [apply next_returns|].
  cbn. repeat split. lia.
Qed.

(** C2.  For every valid configuration ([speed > 0], [amplitude > 0]), every
    input text and every number of ticks [n]: construction and [n] calls of
    the frame producer all return, and the offset of the iterator then
    satisfies [|current_offset| <= amplitude].  Moreover every single call
    preserves the bound, from any iterator state. *)
Theorem offset_stays_within_amplitude
    (text : string) (config : HorizontalCycleConfig.t) (n : nat) :
  HorizontalCycleConfig.valid config ->
  (exists self frames self',
      HorizontalCycleIterator.__init__ (effect_for text config) = Returns self /\
      HorizontalCycleIterator.take_frames n self = Returns (frames, self') /\
      Z.abs (HorizontalCycleIterator.current_offset self')
        <= HorizontalCycleIterator.amplitude self') /\
  (forall self : HorizontalCycleIterator.t,
      Z.abs (HorizontalCycleIterator.current_offset self)
        <= HorizontalCycleIterator.amplitude self ->
      exists frame self',
        HorizontalCycleIterator.__next__ self = Returns (frame, self') /\
        Z.abs (HorizontalCycleIterator.current_offset self')
          <= HorizontalCycleIterator.amplitude self').
Proof.
  intros [_ Hamplitude]. split.
  - eexists _, _, _. split; [apply init_returns|].
    split; [apply take_frames_returns|].
    match goal with
    | |- context [after_ticks n ?s] =>
        destruct (after_ticks_motion n s) as (-> & _ & -> & _)
    end.
    cbn. lia.
  - intros self Hbound. eexists _, _. split; [apply next_returns|].
    exact Hbound.
Qed.

Lemma offset_stays_within_amplitude_witness :
  HorizontalCycleConfig.valid HorizontalCycleConfig.default /\
  exists self frames self',
    HorizontalCycleIterator.__init__ (effect_for "AB" HorizontalCycleConfig.default)
      = Returns self /\
    HorizontalCycleIterator.take_frames 7 self = Returns (frames, self') /\
    Z.abs (HorizontalCycleIterator.current_offset self')
      <= HorizontalCycleIterator.amplitude self'.
Proof.
  split.
  - split; reflexivity.
  - apply (offset_stays_within_amplitude "AB" HorizontalCycleConfig.default 7).
    split; reflexivity.
Defined.

(** C3, as the specification states it, fails: with [amplitude = 0] (which is
    [<= 0]) the constructor raises nothing, it returns an iterator whose
    [amplitude] is 0. *)
Lemma amplitude_zero_is_constructed :
  let config :=
    HorizontalCycleConfig.mk
      (HorizontalCycleConfig.speed HorizontalCycleConfig.default) 0 in
  HorizontalCycleConfig.amplitude config <= 0 /\
  HorizontalCycleIterator.__init__ (effect_for "AB" config)
    <> Raises ConfigurationError /\
  exists self,
    HorizontalCycleIterator.__init__ (effect_for "AB" config) = Returns self /\
    HorizontalCycleIterator.amplitude self = 0.
Proof.
  cbv zeta. split; [cbn; lia|]. rewrite init_returns. split; [discriminate|].
  eexists. split; reflexivity.
Qed.

(** C3, amended.  Constructing the iterator never raises: whatever [speed]
    and [amplitude] the effect's configuration holds, positive or not,
    [__init__] returns an iterator that stores both values unchanged.  No
    error is surfaced mid-stream either: for every [n], the first [n] calls of
    the frame producer return. *)
Theorem construction_accepts_every_config (effect : HorizontalCycle.t) :
  exists self,
    HorizontalCycleIterator.__init__ effect = Returns self /\
    HorizontalCycleIterator.amplitude self
      = HorizontalCycleConfig.amplitude (HorizontalCycle.effect_config effect) /\
    HorizontalCycleIterator.speed self
      = HorizontalCycleConfig.speed (HorizontalCycle.effect_config effect) /\
    forall n : nat, exists frames self',
      HorizontalCycleIterator.take_frames n self = Returns (frames, self') /\
      length frames = n.
Proof.
  eexists. split; [apply init_returns|]. split; [reflexivity|]. split; [reflexivity|].
  intros n. eexists _, _. split; [apply take_frames_returns | apply frames_of_length].
Qed.

(** C4, as the specification states it, fails: in its order (new scenes
    first, then all active scenes advanced) the first call on "AB" would
    leave both scenes one tick in; [__next__] advances first and gives the new
    scenes afterwards, so after its first call both scenes are at their
    start.  The two terminals differ. *)
Lemma spec_order_leaves_scenes_one_tick_in :
  exists self frame self' frame_spec self_spec,
    HorizontalCycleIterator.__init__ (effect_for "AB" HorizontalCycleConfig.default)
      = Returns self /\
    HorizontalCycleIterator.__next__ self = Returns (frame, self') /\
    Specified.next_in_spec_order self = Returns (frame_spec, self_spec) /\
    map (fun c => option_map playhead (animation c))
        (characters (HorizontalCycleIterator.terminal self'))
      = [Some 0%nat; Some 0%nat] /\
    map (fun c => option_map playhead (animation c))
        (characters (HorizontalCycleIterator.terminal self_spec))
      = [Some 1%nat; Some 1%nat] /\
    HorizontalCycleIterator.terminal self'
      <> HorizontalCycleIterator.terminal self_spec.
Proof.
  eexists _, _, _, _, _. split; [apply init_returns|].
  split; [apply next_returns|].
  split; [reflexivity|].
  split; [reflexivity|].
  split; [reflexivity|].
  intros Hsame.
  apply (f_equal (fun t => map (fun c => option_map playhead (animation c))
                             (characters t))) in Hsame.
  vm_compute in Hsame. discriminate Hsame.
Qed.

(** C4, amended.  Each call of the frame producer performs, in order:
    (1) [update]: all active scenes advance one tick, that is, every character
    of the active working set is advanced once (the others are left alone)
    and the working set keeps those that are still active; (2) every
    character that is then not active gets a scene built from the gradient
    white, accent, white with a fixed number of entries under [in_cubic], the
    scene is activated on it, and its position is appended to the active
    working set, in text order; (3) the rendered frame of the resulting
    terminal is returned.  Characters that are active after (1) are left as
    they are. *)
Theorem next_updates_then_activates (self : HorizontalCycleIterator.t) :
  let start := characters (HorizontalCycleIterator.terminal self) in
  let working := HorizontalCycleIterator.active_characters self in
  let updated := HorizontalCycleIterator.update self in
  let before := characters (HorizontalCycleIterator.terminal updated) in
  exists self',
    HorizontalCycleIterator.__next__ self
      = Returns (render_frame (HorizontalCycleIterator.terminal self'), self') /\
    (length before = length start /\
     (forall i : nat, ~ In i working -> before !! i = start !! i) /\
     (NoDup working ->
      forall i : nat, In i working -> before !! i = option_map advance (start !! i)) /\
     HorizontalCycleIterator.active_characters updated =
       List.filter
         (fun i => match before !! i with Some c => is_active c | None => false end)
         working) /\
    length (characters (HorizontalCycleIterator.terminal self')) = length before /\
    (forall (i : nat) (c : Character),
        before !! i = Some c ->
        characters (HorizontalCycleIterator.terminal self') !! i =
        Some (if is_active c then c
              else mkCharacter (input_symbol c) (is_visible c) true
                     (Some (shimmer (input_symbol c))))) /\
    (new_Color "ffffff" = Returns white /\ new_Color "ff0000" = Returns accent) /\
    (forall symbol : string,
        shimmer_scene symbol = Returns (shimmer symbol) /\
        ease (shimmer symbol) = in_cubic /\
        length (entries (shimmer symbol)) = 5%nat /\
        playhead (shimmer symbol) = 0%nat) /\
    HorizontalCycleIterator.active_characters self' =
      HorizontalCycleIterator.active_characters updated ++ inactive_positions before.
Proof.
  cbv zeta. eexists. split; [apply next_returns|].
  split.
  { split; [apply update_length|]. split; [| split; [| reflexivity]].
    - intros i Hi. apply advance_all_untouched. exact Hi.
    - intros Hnodup i Hi.
      apply (advance_all_lookup _ Hnodup
               (characters (HorizontalCycleIterator.terminal self)) i).
      exact Hi. }
  split; [apply after_next_length|].
  split; [| split; [split; reflexivity |
                    split; [intros symbol; repeat split | reflexivity]]].
  intros i c Hc.
  cbn [after_next HorizontalCycleIterator.terminal characters].
  rewrite (lookup_map activated _ _ _ Hc).
  unfold activated. rewrite activate_scene_shimmer. reflexivity.
Qed.

Lemma next_updates_then_activates_witness :
  let self :=
    HorizontalCycleIterator.mk HorizontalCycleConfig.default
      (mkTerminal [mkCharacter "A" true true (Some (shimmer "A"));
                   mkCharacter "B" true true (Some (shimmer "B"))])
      [0%nat; 1%nat] 5 (HorizontalCycleConfig.speed HorizontalCycleConfig.default) 0 1 in
  NoDup (HorizontalCycleIterator.active_characters self) /\
  exists self',
    HorizontalCycleIterator.__next__ self
      = Returns (render_frame (HorizontalCycleIterator.terminal self'), self') /\
    forall i : nat,
      In i (HorizontalCycleIterator.active_characters self) ->
      characters (HorizontalCycleIterator.terminal (HorizontalCycleIterator.update self)) !! i
        = option_map advance (characters (HorizontalCycleIterator.terminal self) !! i).
Proof.
  cbv zeta.
  assert (Hnodup : NoDup [0%nat; 1%nat]).
  { apply NoDup_cons. split; [| apply NoDup_singleton].
    rewrite list_elem_of_In. cbn. lia. }
  split; [exact Hnodup|].
  match goal with
  | |- context [HorizontalCycleIterator.__next__ ?s] =>
      pose proof (next_updates_then_activates s) as Hnext
  end.
  cbv zeta in Hnext.
  destruct Hnext as (self' & Hnext & (_ & _ & Hadvanced & _) & _).
  exists self'. split; [exact Hnext | exact (Hadvanced Hnodup)].
Defined.

(** C5.  Right after the effect is constructed there is one character per
    position of the input text and each is invisible; [build] makes every
    character of the terminal visible, whatever the iterator's state; and the
    iterator returned by [__init__], which has run [build], holds the same
    characters, all visible, before any frame is asked for.  For the text "AB"
    these are exactly two characters, "A" and "B". *)
Theorem characters_invisible_until_build :
  (forall (text : string) (config : HorizontalCycleConfig.t),
      let before := characters (HorizontalCycle.terminal (effect_for text config)) in
      length before = String.length text /\
      Forall (fun c => is_visible c = false) before /\
      exists self,
        HorizontalCycleIterator.__init__ (effect_for text config) = Returns self /\
        let after := characters (HorizontalCycleIterator.terminal self) in
        length after = String.length text /\
        Forall (fun c => is_visible c = true) after /\
        map input_symbol after = map input_symbol before) /\
  (forall self : HorizontalCycleIterator.t,
      Forall (fun c => is_visible c = true)
        (characters (HorizontalCycleIterator.terminal (HorizontalCycleIterator.build self)))) /\
  (let effect := HorizontalCycle.__init__ "AB" in
   map (fun c => (input_symbol c, is_visible c))
       (characters (HorizontalCycle.terminal effect))
     = [("A"%string, false); ("B"%string, false)] /\
   exists self,
     HorizontalCycleIterator.__init__ effect = Returns self /\
     map (fun c => (input_symbol c, is_visible c))
         (characters (HorizontalCycleIterator.terminal self))
       = [("A"%string, true); ("B"%string, true)]).
Proof.
  split; [| split].
  - intros text config. cbv zeta.
    cbn [effect_for HorizontalCycle.set_config HorizontalCycle.terminal
         HorizontalCycle.__init__].
    split; [apply Terminal_build_length|]. split.
    + cbn [Terminal_build characters]. apply Forall_map, Forall_forall.
      intros a _. reflexivity.
    + eexists. split; [apply init_returns|].
      cbn [HorizontalCycleIterator.terminal characters HorizontalCycle.terminal].
      split; [rewrite length_map; apply Terminal_build_length|].
      split.
      * apply Forall_map, Forall_forall. intros c _. reflexivity.
      * rewrite map_map. reflexivity.
  - intros self. rewrite build_shows_all.
    cbn [HorizontalCycleIterator.set_terminal HorizontalCycleIterator.terminal characters].
    apply Forall_map, Forall_forall. intros c _. reflexivity.
  - cbv zeta. split; [reflexivity|].
    eexists. split; [apply init_returns | reflexivity].
Qed.

(** C8.  The iterator never ends by itself: for every valid configuration,
    every input text and every [n], construction returns an iterator and its
    first [n] calls return [n] frames; and from any iterator state whatever a
    call of [__next__] returns a frame and a next state, so it never raises
    [StopIteration]. *)
Theorem frames_never_run_out
    (text : string) (config : HorizontalCycleConfig.t) (n : nat) :
  HorizontalCycleConfig.valid config ->
  (exists self frames self',
      HorizontalCycleIterator.__init__ (effect_for text config) = Returns self /\
      HorizontalCycleIterator.take_frames n self = Returns (frames, self') /\
      length frames = n) /\
  (forall self : HorizontalCycleIterator.t,
      exists frame self',
        HorizontalCycleIterator.__next__ self = Returns (frame, self') /\
        frame = render_frame (HorizontalCycleIterator.terminal self') /\
        HorizontalCycleIterator.__next__ self <> Raises StopIteration).
Proof.
  intros _. split.
  - eexists _, _, _. split; [apply init_returns|].
    split; [apply take_frames_returns | apply frames_of_length].
  - intros self. eexists _, _. split; [apply next_returns|].
    split; [reflexivity|]. rewrite next_returns. discriminate.
Qed.

Lemma frames_never_run_out_witness :
  HorizontalCycleConfig.valid HorizontalCycleConfig.default /\
  exists self frames self',
    HorizontalCycleIterator.__init__ (effect_for "AB" HorizontalCycleConfig.default)
      = Returns self /\
    HorizontalCycleIterator.take_frames 12 self = Returns (frames, self') /\
    length frames = 12%nat.
Proof.
  split.
  - split; reflexivity.
  - apply (frames_never_run_out "AB" HorizontalCycleConfig.default 12).
    split; reflexivity.
Defined.

(** C9.  The frames do not depend on [speed] or [amplitude]: for any two
    valid configurations, any input text and any number of ticks, the two runs
    produce the same sequence of frames. *)
Theorem frames_independent_of_config
    (text : string) (config1 config2 : HorizontalCycleConfig.t) (n : nat) :
  HorizontalCycleConfig.valid config1 ->
  HorizontalCycleConfig.valid config2 ->
  exists frames,
    run text config1 n = Returns frames /\
    run text config2 n = Returns frames /\
    length frames = n.
Proof.
  intros _ _. eexists. split; [apply run_returns|].
  split; [rewrite (run_ignores_config text config2 config1); apply run_returns|].
  apply frames_of_length.
Qed.

Lemma frames_independent_of_config_witness :
  let slow := HorizontalCycleConfig.mk 0x1p-1%float 1 in
  HorizontalCycleConfig.valid HorizontalCycleConfig.default /\
  HorizontalCycleConfig.valid slow /\
  exists frames,
    run "AB" HorizontalCycleConfig.default 6 = Returns frames /\
    run "AB" slow 6 = Returns frames /\
    length frames = 6%nat.
Proof.
  cbv zeta. split; [split; reflexivity|]. split; [split; reflexivity|].
  apply (frames_independent_of_config
           "AB" HorizontalCycleConfig.default (HorizontalCycleConfig.mk 0x1p-1%float 1) 6);
    split; reflexivity.
Defined.

(** C10.  A call of the frame producer leaves the motion state alone: from
    any iterator state, [__next__] returns with [current_offset], [direction],
    [amplitude], [speed] and [config] unchanged, and with the symbols and the
    visibility of the characters unchanged.  So after construction and any
    number of calls, [current_offset] is still 0 and [direction] is still 1. *)
Theorem next_leaves_motion_state :
  (forall self : HorizontalCycleIterator.t,
      exists frame self',
        HorizontalCycleIterator.__next__ self = Returns (frame, self') /\
        HorizontalCycleIterator.current_offset self'
          = HorizontalCycleIterator.current_offset self /\
        HorizontalCycleIterator.direction self'
          = HorizontalCycleIterator.direction self /\
        HorizontalCycleIterator.amplitude self'
          = HorizontalCycleIterator.amplitude self /\
        HorizontalCycleIterator.speed self' = HorizontalCycleIterator.speed self /\
        HorizontalCycleIterator.config self' = HorizontalCycleIterator.config self /\
        map input_symbol (characters (HorizontalCycleIterator.terminal self'))
          = map input_symbol (characters (HorizontalCycleIterator.terminal self)) /\
        map is_visible (characters (HorizontalCycleIterator.terminal self'))
          = map is_visible (characters (HorizontalCycleIterator.terminal self))) /\
  (forall (effect : HorizontalCycle.t) (n : nat),
      exists self frames self',
        HorizontalCycleIterator.__init__ effect = Returns self /\
        HorizontalCycleIterator.take_frames n self = Returns (frames, self') /\
        HorizontalCycleIterator.current_offset self' = 0 /\
        HorizontalCycleIterator.direction self' = 1).
Proof.
  split.
  - intros self. eexists _, _. split; [apply next_returns|].
    destruct (after_next_keeps_text self) as [Hsymbols Hvisible].
    repeat split; assumption.
  - intros effect n. eexists _, _, _. split; [apply init_returns|].
    split; [apply take_frames_returns|].
    match goal with
    | |- context [after_ticks n ?s] =>
        destruct (after_ticks_motion n s) as (-> & -> & _ & _)
    end.
    split; reflexivity.
Qed.

(** * Further properties of the iterator *)

(** ** [build] *)

(** X1.  [build] changes the visibility of the characters and nothing else:
    their number, their symbols, their active flags and their scenes are as
    before, and so are the working set, the configuration and the motion
    state of the iterator. *)
Theorem build_changes_visibility_only (self : HorizontalCycleIterator.t) :
  let built := HorizontalCycleIterator.build self in
  let before := characters (HorizontalCycleIterator.terminal self) in
  let after := characters (HorizontalCycleIterator.terminal built) in
  length after = length before /\
  map input_symbol after = map input_symbol before /\
  map is_active after = map is_active before /\
  map animation after = map animation before /\
  HorizontalCycleIterator.active_characters built
    = HorizontalCycleIterator.active_characters self /\
  HorizontalCycleIterator.config built = HorizontalCycleIterator.config self /\
  HorizontalCycleIterator.amplitude built = HorizontalCycleIterator.amplitude self /\
  HorizontalCycleIterator.speed built = HorizontalCycleIterator.speed self /\
  HorizontalCycleIterator.current_offset built
    = HorizontalCycleIterator.current_offset self /\
  HorizontalCycleIterator.direction built = HorizontalCycleIterator.direction self.
Proof.
  cbv zeta. rewrite build_shows_all.
  cbn [HorizontalCycleIterator.set_terminal HorizontalCycleIterator.terminal characters
       HorizontalCycleIterator.active_characters HorizontalCycleIterator.config
       HorizontalCycleIterator.amplitude HorizontalCycleIterator.speed
       HorizontalCycleIterator.current_offset HorizontalCycleIterator.direction].
  rewrite length_map, !map_map. repeat split.
Qed.

(** X2.  [build] is idempotent: running it a second time changes nothing. *)
Theorem build_is_idempotent (self : HorizontalCycleIterator.t) :
  HorizontalCycleIterator.build (HorizontalCycleIterator.build self)
    = HorizontalCycleIterator.build self.
Proof.
  rewrite (build_shows_all (HorizontalCycleIterator.build self)), build_shows_all.
  cbn [HorizontalCycleIterator.set_terminal HorizontalCycleIterator.terminal characters
       HorizontalCycleIterator.active_characters HorizontalCycleIterator.config
       HorizontalCycleIterator.amplitude HorizontalCycleIterator.speed
       HorizontalCycleIterator.current_offset HorizontalCycleIterator.direction].
  rewrite map_map. reflexivity.
Qed.

(** ** The loop of [__next__] *)

(** X3.  After a call of [__next__], from any iterator state, every character
    of the terminal is active: the loop has given a scene to each character
    that was not. *)
Theorem next_leaves_every_character_active (self : HorizontalCycleIterator.t) :
  exists frame self',
    HorizontalCycleIterator.__next__ self = Returns (frame, self') /\
    Forall (fun c => is_active c = true)
      (characters (HorizontalCycleIterator.terminal self')).
Proof.
  eexists _, _. split; [apply next_returns|].
  cbn [after_next HorizontalCycleIterator.terminal characters].
  apply Forall_map, Forall_forall. intros c _.
  unfold activated. destruct (is_active c) eqn:Hactive; [exact Hactive | reflexivity].
Qed.

(** ** The active working set *)

Lemma after_ticks_length (n : nat) (self : HorizontalCycleIterator.t) :
  length (characters (HorizontalCycleIterator.terminal (after_ticks n self)))
    = length (characters (HorizontalCycleIterator.terminal self)).
Proof.
  revert self. induction n as [|n IH]; intros self; [reflexivity|].
  cbn [after_ticks]. rewrite IH, after_next_length. apply update_length.
Qed.

Lemma inactive_positions_In (chars : list Character) (j : nat) :
  In j (inactive_positions chars) <->
  exists c, chars !! j = Some c /\ is_active c = false.
Proof.
  unfold inactive_positions, inactive_at. rewrite List.filter_In, in_seq. split.
  - intros [_ Hj]. destruct (chars !! j) as [c|]; [|discriminate].
    exists c. split; [reflexivity|]. destruct (is_active c); [discriminate | reflexivity].
  - intros (c & Hc & Hactive). split.
    + apply lookup_lt_Some in Hc. lia.
    + rewrite Hc, Hactive. reflexivity.
Qed.

(** One call from a state whose working set has no repetition and holds every
    active character: afterwards the working set has no repetition and holds
    exactly the positions of the text. *)
Lemma after_next_working_set (self : HorizontalCycleIterator.t) :
  NoDup (HorizontalCycleIterator.active_characters self) ->
  (forall (i : nat) (c : Character),
      characters (HorizontalCycleIterator.terminal self) !! i = Some c ->
      is_active c = true ->
      In i (HorizontalCycleIterator.active_characters self)) ->
  NoDup (HorizontalCycleIterator.active_characters (after_next self)) /\
  forall i : nat,
    In i (HorizontalCycleIterator.active_characters (after_next self)) <->
    (i < length (characters (HorizontalCycleIterator.terminal (after_next self))))%nat.
Proof.
  intros Hnodup Hcover.
  pose proof (update_length self) as Hlen.
  rewrite after_next_length.
  cbn [after_next HorizontalCycleIterator.active_characters].
  set (updated := HorizontalCycleIterator.update self) in *.
  set (cu := characters (HorizontalCycleIterator.terminal updated)) in *.
  assert (Hkept : forall j,
             In j (HorizontalCycleIterator.active_characters updated) <->
             In j (HorizontalCycleIterator.active_characters self) /\
             exists c, cu !! j = Some c /\ is_active c = true).
  { intros j. subst updated cu.
    cbn [HorizontalCycleIterator.update HorizontalCycleIterator.active_characters
         HorizontalCycleIterator.terminal characters].
    rewrite List.filter_In. split; intros [Hj Hc]; (split; [exact Hj|]).
    - destruct (fold_left _ _ _ !! j) as [c|]; [|discriminate]. eauto.
    - destruct Hc as (c & -> & Hc). exact Hc. }
  split.
  - apply NoDup_app. split; [| split].
    + subst updated.
      cbn [HorizontalCycleIterator.update HorizontalCycleIterator.active_characters].
      apply NoDup_ListNoDup, List.NoDup_filter, NoDup_ListNoDup. exact Hnodup.
    + intros j Hj Hj'. rewrite list_elem_of_In in Hj, Hj'.
      apply Hkept in Hj. destruct Hj as (_ & c & Hc & Hactive).
      apply inactive_positions_In in Hj'. destruct Hj' as (c' & Hc' & Hinactive).
      congruence.
    + unfold inactive_positions.
      apply NoDup_ListNoDup, List.NoDup_filter, seq_NoDup.
  - intros i. rewrite in_app_iff, Hkept, inactive_positions_In. split.
    + intros [(_ & c & Hc & _) | (c & Hc & _)]; apply lookup_lt_Some in Hc; exact Hc.
    + intros Hi. destruct (cu !! i) as [c|] eqn:Hc;
        [| apply lookup_ge_None in Hc; lia].
      destruct (is_active c) eqn:Hactive; [left | right; eauto].
      split; [| eauto].
      destruct (in_dec Nat.eq_dec i (HorizontalCycleIterator.active_characters self))
        as [Hin | Hout]; [exact Hin|].
      apply (Hcover i c); [| exact Hactive].
      rewrite <- Hc. subst cu updated.
      cbn [HorizontalCycleIterator.update HorizontalCycleIterator.terminal characters].
      symmetry.
      apply (advance_all_lookup _ Hnodup
               (characters (HorizontalCycleIterator.terminal self)) i).
      exact Hout.
Qed.

Lemma after_ticks_working_set (n : nat) (self : HorizontalCycleIterator.t) :
  NoDup (HorizontalCycleIterator.active_characters self) ->
  (forall (i : nat) (c : Character),
      characters (HorizontalCycleIterator.terminal self) !! i = Some c ->
      is_active c = true ->
      In i (HorizontalCycleIterator.active_characters self)) ->
  NoDup (HorizontalCycleIterator.active_characters (after_ticks (S n) self)) /\
  forall i : nat,
    In i (HorizontalCycleIterator.active_characters (after_ticks (S n) self)) <->
    (i < length (characters (HorizontalCycleIterator.terminal self)))%nat.
Proof.
  revert self. induction n as [|n IH]; intros self Hnodup Hcover.
  - cbn [after_ticks].
    destruct (after_next_working_set self Hnodup Hcover) as [Hnd Hall].
    split; [exact Hnd|]. intros i. rewrite Hall, after_next_length, update_length.
    reflexivity.
  - change (after_ticks (S (S n)) self) with (after_ticks (S n) (after_next self)).
    destruct (after_next_working_set self Hnodup Hcover) as [Hnd Hall].
    destruct (IH (after_next self) Hnd) as [Hnd' Hall'].
    + intros i c Hc _. apply Hall. apply lookup_lt_Some in Hc. exact Hc.
    + split; [exact Hnd'|]. intros i.
      rewrite Hall', after_next_length, update_length. reflexivity.
Qed.

(** X4.  Along a run the active working set stays bounded: after
    construction and any number [n >= 1] of calls of [__next__] it holds each
    position of the text exactly once, so it has as many entries as the text
    has characters.  The guard [if not character.is_active] keeps a character
    from being appended while it is still in the set. *)
Theorem working_set_holds_each_character_once
    (text : string) (config : HorizontalCycleConfig.t) (n : nat) :
  exists self frames self',
    HorizontalCycleIterator.__init__ (effect_for text config) = Returns self /\
    HorizontalCycleIterator.active_characters self = [] /\
    HorizontalCycleIterator.take_frames (S n) self = Returns (frames, self') /\
    NoDup (HorizontalCycleIterator.active_characters self') /\
    (forall i : nat,
        In i (HorizontalCycleIterator.active_characters self') <->
        (i < String.length text)%nat) /\
    length (HorizontalCycleIterator.active_characters self') = String.length text.
Proof.
  eexists _, _, _. split; [apply init_returns|]. split; [reflexivity|].
  split; [apply take_frames_returns|].
  match goal with
  | |- context [after_ticks (S n) ?s] =>
      destruct (after_ticks_working_set n s) as [Hnodup Hall]
  end.
  - constructor.
  - cbn [HorizontalCycleIterator.terminal HorizontalCycleIterator.active_characters
         characters effect_for HorizontalCycle.set_config HorizontalCycle.terminal
         HorizontalCycle.__init__ Terminal_build].
    intros i c Hc Hactive. exfalso.
    rewrite !lookup_map_option in Hc.
    destruct (list_ascii_of_string text !! i); cbn in Hc; [|discriminate].
    injection Hc as <-. discriminate.
  - assert (Hlen : length (characters (HorizontalCycleIterator.terminal
             (HorizontalCycleIterator.mk
                (HorizontalCycle.effect_config (effect_for text config))
                (mkTerminal (map shown
                   (characters (HorizontalCycle.terminal (effect_for text config)))))
                [] (HorizontalCycleConfig.amplitude
                      (HorizontalCycle.effect_config (effect_for text config)))
                (HorizontalCycleConfig.speed
                      (HorizontalCycle.effect_config (effect_for text config))) 0 1)))
             = String.length text).
    { cbn [HorizontalCycleIterator.terminal characters effect_for
           HorizontalCycle.set_config HorizontalCycle.terminal HorizontalCycle.__init__].
      rewrite length_map. apply Terminal_build_length. }
    rewrite Hlen in Hall. split; [exact Hnodup|]. split; [exact Hall|].
    rewrite <- (length_seq (String.length text) 0%nat).
    apply Permutation_length, NoDup_Permutation;
      [exact Hnodup | apply NoDup_ListNoDup, seq_NoDup |].
    intros i. rewrite !list_elem_of_In, Hall, in_seq. lia.
Qed.

(** X5.  When the working set has no repetition and holds every position of
    the text, a call of [__next__] advances the scene of every character by
    exactly one tick and then gives a new scene to those whose scene ended:
    each character [c] becomes [activated (advance c)]. *)
Theorem next_advances_each_scene_once (self : HorizontalCycleIterator.t) :
  NoDup (HorizontalCycleIterator.active_characters self) ->
  (forall i : nat,
      (i < length (characters (HorizontalCycleIterator.terminal self)))%nat ->
      In i (HorizontalCycleIterator.active_characters self)) ->
  exists frame self',
    HorizontalCycleIterator.__next__ self = Returns (frame, self') /\
    characters (HorizontalCycleIterator.terminal self')
      = map (fun c => activated (advance c))
            (characters (HorizontalCycleIterator.terminal self)).
Proof.
  intros Hnodup Hall. eexists _, _. split; [apply next_returns|].
  cbn [after_next HorizontalCycleIterator.terminal characters
       HorizontalCycleIterator.update].
  rewrite <- (map_map advance activated). f_equal.
  apply list_eq. intros j. rewrite lookup_map_option.
  destruct (advance_all_lookup _ Hnodup
              (characters (HorizontalCycleIterator.terminal self)) j) as [Hin Hout].
  destruct (in_dec Nat.eq_dec j (HorizontalCycleIterator.active_characters self))
    as [Hj | Hj].
  - apply Hin. exact Hj.
  - rewrite (Hout Hj).
    destruct (characters (HorizontalCycleIterator.terminal self) !! j) as [c|] eqn:Hc;
      [| reflexivity].
    apply lookup_lt_Some in Hc. apply Hall in Hc. contradiction.
Qed.

Lemma next_advances_each_scene_once_witness :
  let self :=
    HorizontalCycleIterator.mk HorizontalCycleConfig.default
      (mkTerminal [mkCharacter "A" true true (Some (shimmer "A"))])
      [0%nat] 5 (HorizontalCycleConfig.speed HorizontalCycleConfig.default) 0 1 in
  NoDup (HorizontalCycleIterator.active_characters self) /\
  exists frame self',
    HorizontalCycleIterator.__next__ self = Returns (frame, self') /\
    characters (HorizontalCycleIterator.terminal self')
      = map (fun c => activated (advance c))
            (characters (HorizontalCycleIterator.terminal self)).
Proof.
  cbv zeta.
  assert (Hnodup : NoDup [0%nat]) by (apply NoDup_singleton).
  split; [exact Hnodup|].
  apply next_advances_each_scene_once; [exact Hnodup|].
  cbn. intros i Hi. left. lia.
Defined.

(** ** What the frames depend on *)

Lemma after_ticks_same_display (n : nat) (s1 s2 : HorizontalCycleIterator.t) :
  same_display s1 s2 -> same_display (after_ticks n s1) (after_ticks n s2).
Proof.
  revert s1 s2. induction n as [|n IH]; intros s1 s2 Hsame; [exact Hsame|].
  cbn [after_ticks]. apply IH, after_next_same_display. exact Hsame.
Qed.

(** X8.  The frames are a function of the terminal and the working set alone:
    two iterators that agree on both produce the same frames and end with the
    same terminal and working set, whatever their [current_offset],
    [direction], [amplitude], [speed] and [config] are.  [__next__] never
    reads the motion state. *)
Theorem frames_ignore_motion_state (n : nat) (s1 s2 : HorizontalCycleIterator.t) :
  HorizontalCycleIterator.terminal s1 = HorizontalCycleIterator.terminal s2 ->
  HorizontalCycleIterator.active_characters s1
    = HorizontalCycleIterator.active_characters s2 ->
  exists frames s1' s2',
    HorizontalCycleIterator.take_frames n s1 = Returns (frames, s1') /\
    HorizontalCycleIterator.take_frames n s2 = Returns (frames, s2') /\
    HorizontalCycleIterator.terminal s1' = HorizontalCycleIterator.terminal s2' /\
    HorizontalCycleIterator.active_characters s1'
      = HorizontalCycleIterator.active_characters s2'.
Proof.
  intros Hterminal Hactive.
  assert (Hsame : same_display s1 s2) by (split; assumption).
  exists (frames_of n s1), (after_ticks n s1), (after_ticks n s2).
  split; [apply take_frames_returns|].
  split; [rewrite (frames_of_same_display n s1 s2 Hsame); apply take_frames_returns|].
  apply after_ticks_same_display. exact Hsame.
Qed.

Lemma frames_ignore_motion_state_witness :
  let chars := mkTerminal [mkCharacter "A" true false None] in
  let s1 :=
    HorizontalCycleIterator.mk HorizontalCycleConfig.default chars [] 5
      (HorizontalCycleConfig.speed HorizontalCycleConfig.default) 0 1 in
  let s2 :=
    HorizontalCycleIterator.mk (HorizontalCycleConfig.mk 0x1p-1%float 2) chars [] 2
      0x1p-1%float 2 (-1) in
  exists frames s1' s2',
    HorizontalCycleIterator.take_frames 7 s1 = Returns (frames, s1') /\
    HorizontalCycleIterator.take_frames 7 s2 = Returns (frames, s2') /\
    HorizontalCycleIterator.terminal s1' = HorizontalCycleIterator.terminal s2' /\
    HorizontalCycleIterator.active_characters s1'
      = HorizontalCycleIterator.active_characters s2'.
Proof.
  cbv zeta. apply frames_ignore_motion_state; reflexivity.
Defined.
